(** * PG::TypeMapByMriType: the encoder table keyed by MRI value type

    A shallow embedding of [ext/pg_type_map_by_mri_type.c] and the
    properties of its slot table, its dispatch function and its
    assignment / introspection methods.

    The C file is written against the Ruby C API.  The API itself is not
    part of the file, so it is taken as an interface ([RubyObjects],
    [RubyMethods]); every function of the C file is then translated over
    that interface.  A small concrete runtime ([Mini]) instantiates the
    interface so that the functions can be run on actual inputs. *)

From Stdlib Require Import ZArith List String Ascii Bool Lia DecimalString FinFun.
Import ListNotations.

Open Scope string_scope.
Open Scope Z_scope.

(** ** The MRI type codes *)

(** The eighteen codes listed by the macro [FOR_EACH_MRI_TYPE].  The macro
    pastes the token into field names ([coder_##type], [ask_##type]) and
    stringifies it ([#type]); here the token is a constructor, the fields are
    indexed by it and [mri_type_name] is the stringification. *)
Inductive mri_type : Set :=
  | T_FIXNUM | T_TRUE | T_FALSE | T_FLOAT | T_BIGNUM | T_COMPLEX
  | T_RATIONAL | T_ARRAY | T_STRING | T_SYMBOL | T_OBJECT | T_CLASS
  | T_MODULE | T_REGEXP | T_HASH | T_STRUCT | T_FILE | T_DATA.

Definition FOR_EACH_MRI_TYPE : list mri_type :=
  [ T_FIXNUM; T_TRUE; T_FALSE; T_FLOAT; T_BIGNUM; T_COMPLEX;
    T_RATIONAL; T_ARRAY; T_STRING; T_SYMBOL; T_OBJECT; T_CLASS;
    T_MODULE; T_REGEXP; T_HASH; T_STRUCT; T_FILE; T_DATA ].

Definition mri_type_name (type : mri_type) : string :=
  match type with
  | T_FIXNUM => "T_FIXNUM" | T_TRUE => "T_TRUE" | T_FALSE => "T_FALSE"
  | T_FLOAT => "T_FLOAT" | T_BIGNUM => "T_BIGNUM" | T_COMPLEX => "T_COMPLEX"
  | T_RATIONAL => "T_RATIONAL" | T_ARRAY => "T_ARRAY" | T_STRING => "T_STRING"
  | T_SYMBOL => "T_SYMBOL" | T_OBJECT => "T_OBJECT" | T_CLASS => "T_CLASS"
  | T_MODULE => "T_MODULE" | T_REGEXP => "T_REGEXP" | T_HASH => "T_HASH"
  | T_STRUCT => "T_STRUCT" | T_FILE => "T_FILE" | T_DATA => "T_DATA"
  end.

Definition mri_type_eq_dec (a b : mri_type) : {a = b} + {a <> b}.
Proof. decide equality. Defined.

Definition mri_type_eqb (a b : mri_type) : bool :=
  if mri_type_eq_dec a b then true else false.

(** What the macro [TYPE(v)] of the Ruby headers can yield: one of the
    eighteen codes above, or one of the codes the C file does not list
    (they fall into the [default:] branch of its [switch]). *)
Inductive ruby_value_type : Set :=
  | Mri (type : mri_type)
  | T_NONE | T_NIL | T_MATCH | T_UNDEF | T_NODE | T_ICLASS | T_ZOMBIE.

Definition ruby_value_type_eq_dec (a b : ruby_value_type) : {a = b} + {a <> b}.
Proof. decide equality. apply mri_type_eq_dec. Defined.

(** ** Exceptions *)

(** [rb_raise] leaves the function with an exception: a class and a
    message.  The C file raises [rb_eTypeError] and [rb_eArgError]; code
    called through [rb_funcall] may raise anything. *)
Inductive exception_class : Set :=
  | rb_eTypeError
  | rb_eArgError
  | rb_eOther (class_name : string).

Record exception : Set := mk_exception {
  exc_class : exception_class;
  exc_message : string
}.

Inductive outcome (A : Type) : Type :=
  | Normal (a : A)
  | Raised (e : exception).
Arguments Normal {A} a.
Arguments Raised {A} e.

(** Method names ([ID]); [rb_intern] interns a C string. *)
Definition ID : Set := string.
Definition rb_intern (name : string) : ID := name.

(** ** The part of the Ruby C API that the file uses on values *)

Class RubyObjects : Type := {
  VALUE : Type;
  (** [VALUE]s are machine words: they are compared with [==]. *)
  VALUE_eq_dec : forall a b : VALUE, {a = b} + {a <> b};
  Qnil : VALUE;
  (** the class object [PG::Coder] *)
  rb_cPG_Coder : VALUE;
  TYPE : VALUE -> ruby_value_type;
  rb_obj_is_kind_of : VALUE -> VALUE -> bool;
  rb_obj_classname : VALUE -> string;
  SYM2ID : VALUE -> ID;
  (** [StringValueCStr]: the C string of a value, or the exception raised
      when the value has none. *)
  StringValueCStr : VALUE -> outcome string;
  (** [StringValueCStr(v)] is [rb_string_value_cstr(&v)]: besides giving the
      C string it replaces the variable [v] by the String the value was
      converted to ([v] itself when it is a String, the result of its
      [to_str] otherwise).  [rb_string_value v] is that String. *)
  rb_string_value : VALUE -> VALUE;
  rb_inspect : VALUE -> VALUE;
  (** non-NULL pointers to [t_pg_coder] structs, and their field
      [coder_obj] *)
  t_pg_coder : Type;
  coder_obj : t_pg_coder -> VALUE;
  (** [Data_Get_Struct(obj, t_pg_coder, p)]: the data pointer of [obj];
      [None] is the NULL pointer. *)
  Data_Get_Struct : VALUE -> option t_pg_coder
}.

Section Table.
Context {RO : RubyObjects}.

Definition NIL_P (v : VALUE) : bool :=
  if VALUE_eq_dec v Qnil then true else false.

(** ** The struct [t_tmbmt] *)

(** The six function pointers of [t_typemap], by the name of the function
    they point to. *)
Inductive typemap_function : Set :=
  | addr_pg_typemap_fit_to_result
  | addr_pg_tmbmt_fit_to_query
  | addr_pg_typemap_fit_to_copy_get
  | addr_pg_typemap_result_value
  | addr_pg_tmbmt_typecast_query_param
  | addr_pg_typemap_typecast_copy_get.

Record t_typemap : Set := mk_typemap {
  fit_to_result : typemap_function;
  fit_to_query : typemap_function;
  fit_to_copy_get : typemap_function;
  typecast_result_value : typemap_function;
  typecast_query_param : typemap_function;
  typecast_copy_get : typemap_function
}.

(** [struct pg_tmbmt_converter]: for each listed type the two fields that
    [DECLARE_CODER] declares, [t_pg_coder *coder_##type] and
    [VALUE ask_##type]. *)
Record pg_tmbmt_converter : Type := mk_converter {
  coder_ : mri_type -> option t_pg_coder;
  ask_ : mri_type -> VALUE
}.

Record t_tmbmt : Type := mk_tmbmt {
  typemap : t_typemap;
  coders : pg_tmbmt_converter
}.

(** [this->coders.coder_##type = p] *)
Definition store_coder (type : mri_type) (p : option t_pg_coder) (this : t_tmbmt) : t_tmbmt :=
  {| typemap := typemap this;
     coders := {| coder_ := fun t => if mri_type_eqb t type then p
                                     else coder_ (coders this) t;
                  ask_ := ask_ (coders this) |} |}.

(** [this->coders.ask_##type = v] *)
Definition store_ask (type : mri_type) (v : VALUE) (this : t_tmbmt) : t_tmbmt :=
  {| typemap := typemap this;
     coders := {| coder_ := coder_ (coders this);
                  ask_ := fun t => if mri_type_eqb t type then v
                                   else ask_ (coders this) t |} |}.

(** ** State and control *)

(** One call made through [rb_funcall]: receiver, method, arguments. *)
Record funcall : Type := mk_funcall {
  call_recv : VALUE;
  call_mid : ID;
  call_args : list VALUE
}.

(** The state the functions run in: the struct behind [self]
    ([DATA_PTR(self)]) and the calls made into Ruby code so far. *)
Record world : Type := mk_world {
  this_ : t_tmbmt;
  funcalls : list funcall
}.

(** A computation reads and writes the state and either returns or
    raises; the state reached at a raise is kept. *)
Definition M (A : Type) : Type := world -> outcome A * world.

Definition ret {A : Type} (a : A) : M A := fun w => (Normal a, w).

Definition bind {A B : Type} (m : M A) (k : A -> M B) : M B :=
  fun w => match m w with
           | (Normal a, w') => k a w'
           | (Raised e, w') => (Raised e, w')
           end.

Definition rb_raise {A : Type} (klass : exception_class) (message : string) : M A :=
  fun w => (Raised (mk_exception klass message), w).

Definition lift {A : Type} (o : outcome A) : M A := fun w => (o, w).

Definition DATA_PTR (self : VALUE) : M t_tmbmt := fun w => (Normal (this_ w), w).

Definition modify_this (f : t_tmbmt -> t_tmbmt) : M unit :=
  fun w => (Normal tt, {| this_ := f (this_ w); funcalls := funcalls w |}).

End Table.

Notation "x <- m ;; k" := (bind m (fun x => k))
  (at level 61, m at next level, right associativity).
Notation "m ;; k" := (bind m (fun _ => k))
  (at level 61, right associativity).

(** ** The part of the Ruby C API that runs Ruby code *)

(** What a method call does once the method is found (or not found): it may
    return, raise, and change the table on its way. *)
Class RubyMethods {RO : RubyObjects} : Type := {
  rb_method_body : VALUE -> ID -> list VALUE -> t_tmbmt -> outcome VALUE * t_tmbmt
}.

Section Operations.
Context {RO : RubyObjects} {RM : RubyMethods}.

(** [rb_funcall(recv, mid, 1, arg)]: the call is recorded, then the method
    runs on the table. *)
Definition rb_funcall (recv : VALUE) (mid : ID) (args : list VALUE) : M VALUE :=
  fun w =>
    let (r, this') := rb_method_body recv mid args (this_ w) in
    (r, {| this_ := this';
           funcalls := funcalls w ++ [mk_funcall recv mid args] |}).

(** [%d] of [printf] *)
Definition format_d (n : Z) : string := NilZero.string_of_int (Z.to_int n).

(** ** [pg_tmbmt_typecast_query_param] *)

(** [CASE_AND_GET(type)]: the values read into [p_coder] and
    [ask_for_coder]. *)
Definition CASE_AND_GET (this : t_tmbmt) (type : mri_type)
  : option t_pg_coder * VALUE :=
  (coder_ (coders this) type, ask_ (coders this) type).

(** Addition of C [int]s, wrapping around at 32 bits. *)
Definition int_add (a b : Z) : Z :=
  (a + b + 2147483648) mod 4294967296 - 2147483648.

(** The coder for one query parameter; [None] is the NULL pointer, on
    which the caller falls back to its own conversion.  [field] is the
    0-based index of the parameter, a C [int]. *)
Definition pg_tmbmt_typecast_query_param (self param_value : VALUE) (field : Z)
  : M (option t_pg_coder) :=
  this <- DATA_PTR self ;;
  let '(p_coder, ask_for_coder) :=
    match TYPE param_value with
    | Mri type => CASE_AND_GET this type
    | _ => (* unknown MRI type *) (None, Qnil)
    end in
  if negb (NIL_P ask_for_coder) then
    (* No static Coder object, but proc/method given to ask for the Coder
       to use. *)
    obj <- (if ruby_value_type_eq_dec (TYPE ask_for_coder) (Mri T_SYMBOL)
            then rb_funcall self (SYM2ID ask_for_coder) [param_value]
            else rb_funcall ask_for_coder (rb_intern "call") [param_value]) ;;
    if rb_obj_is_kind_of obj rb_cPG_Coder then
      ret (Data_Get_Struct obj)
    else
      rb_raise rb_eTypeError
        ("argument " ++ format_d (int_add field 1) ++ " has invalid type "
         ++ rb_obj_classname obj
         ++ " (should be nil or some kind of PG::Coder)")
  else
    ret p_coder.

(** ** [pg_tmbmt_fit_to_query] *)

Definition pg_tmbmt_fit_to_query (self params : VALUE) : M VALUE :=
  ret self.

(** ** [pg_tmbmt_s_allocate] *)

(** [INIT_VARIABLES(type)] for every listed type. *)
Definition INIT_VARIABLES : pg_tmbmt_converter :=
  {| coder_ := fun _ => None; ask_ := fun _ => Qnil |}.

(** The struct of the object that [pg_tmbmt_s_allocate] makes. *)
Definition pg_tmbmt_s_allocate (klass : VALUE) : t_tmbmt :=
  {| typemap :=
       {| fit_to_result := addr_pg_typemap_fit_to_result;
          fit_to_query := addr_pg_tmbmt_fit_to_query;
          fit_to_copy_get := addr_pg_typemap_fit_to_copy_get;
          typecast_result_value := addr_pg_typemap_result_value;
          typecast_query_param := addr_pg_tmbmt_typecast_query_param;
          typecast_copy_get := addr_pg_typemap_typecast_copy_get |};
     coders := INIT_VARIABLES |}.

(** ** [pg_tmbmt_aset] and [pg_tmbmt_aref] *)

(** [strcmp], as far as the file uses it: zero exactly on equal strings. *)
Definition strcmp (a b : string) : Z :=
  match String.compare a b with
  | Eq => 0
  | Lt => -1
  | Gt => 1
  end.

(** The chain [if(0){} else if(!strcmp(p_mri_type, #type)){...} ...]: the
    first listed type whose name is [p_mri_type]; [None] is the final
    [else]. *)
Definition compare_chain (p_mri_type : string) : option mri_type :=
  find (fun type => strcmp p_mri_type (mri_type_name type) =? 0)
       FOR_EACH_MRI_TYPE.

(** The body of [COMPARE_AND_ASSIGN(type)]. *)
Definition COMPARE_AND_ASSIGN (type : mri_type) (coder : VALUE) : M unit :=
  if NIL_P coder then
    modify_this (store_coder type None) ;;
    modify_this (store_ask type Qnil)
  else if rb_obj_is_kind_of coder rb_cPG_Coder then
    modify_this (store_coder type (Data_Get_Struct coder)) ;;
    modify_this (store_ask type Qnil)
  else
    modify_this (store_coder type None) ;;
    modify_this (store_ask type coder).

(** The final [else] of both chains. *)
Definition unknown_mri_type {A : Type} (mri_type : VALUE) : M A :=
  let mri_type_inspect := rb_inspect mri_type in
  s <- lift (StringValueCStr mri_type_inspect) ;;
  rb_raise rb_eArgError ("unknown mri_type " ++ s).

Definition pg_tmbmt_aset (self mri_type coder : VALUE) : M VALUE :=
  p_mri_type <- lift (StringValueCStr mri_type) ;;
  (* the macro has replaced the variable by the converted String *)
  let mri_type := rb_string_value mri_type in
  match compare_chain p_mri_type with
  | Some type => COMPARE_AND_ASSIGN type coder
  | None => unknown_mri_type mri_type
  end ;;
  ret self.

(** The body of [COMPARE_AND_GET(type)]. *)
Definition COMPARE_AND_GET (this : t_tmbmt) (type : mri_type) : VALUE :=
  match coder_ (coders this) type with
  | Some p => coder_obj p
  | None => ask_ (coders this) type
  end.

Definition pg_tmbmt_aref (self mri_type : VALUE) : M VALUE :=
  this <- DATA_PTR self ;;
  p_mri_type <- lift (StringValueCStr mri_type) ;;
  (* the macro has replaced the variable by the converted String *)
  let mri_type := rb_string_value mri_type in
  match compare_chain p_mri_type with
  | Some type => ret (COMPARE_AND_GET this type)
  | None => unknown_mri_type mri_type
  end.

(** ** [pg_tmbmt_coders] *)

(** A Ruby String as far as it is used for the keys: its bytes and whether
    it is frozen. *)
Record rb_str : Set := mk_str {
  str_bytes : string;
  str_frozen : bool
}.

Definition rb_str_new2 (s : string) : rb_str :=
  {| str_bytes := s; str_frozen := false |}.

Definition rb_str_freeze (s : rb_str) : rb_str :=
  {| str_bytes := str_bytes s; str_frozen := true |}.

(** A Ruby Hash with String keys: the entries in insertion order and
    whether it is frozen. *)
Record rb_hash : Type := mk_hash {
  hash_entries : list (rb_str * VALUE);
  hash_frozen : bool
}.

Definition rb_hash_new : rb_hash :=
  {| hash_entries := []; hash_frozen := false |}.

(** Storing under a key whose bytes are already present replaces the value
    in place, otherwise the entry is added at the end. *)
Fixpoint hash_store (entries : list (rb_str * VALUE)) (key : rb_str) (v : VALUE)
  : list (rb_str * VALUE) :=
  match entries with
  | [] => [(key, v)]
  | (k, v0) :: rest =>
      if String.eqb (str_bytes k) (str_bytes key) then (k, v) :: rest
      else (k, v0) :: hash_store rest key v
  end.

Definition rb_hash_aset (h : rb_hash) (key : rb_str) (v : VALUE) : rb_hash :=
  {| hash_entries := hash_store (hash_entries h) key v;
     hash_frozen := hash_frozen h |}.

Definition rb_hash_freeze (h : rb_hash) : rb_hash :=
  {| hash_entries := hash_entries h; hash_frozen := true |}.

Fixpoint hash_lookup (entries : list (rb_str * VALUE)) (key : string)
  : option VALUE :=
  match entries with
  | [] => None
  | (k, v) :: rest =>
      if String.eqb (str_bytes k) key then Some v else hash_lookup rest key
  end.

(** [ADD_TO_HASH(type)] *)
Definition ADD_TO_HASH (this : t_tmbmt) (hash_coders : rb_hash) (type : mri_type)
  : rb_hash :=
  rb_hash_aset hash_coders
    (rb_str_freeze (rb_str_new2 (mri_type_name type)))
    (match coder_ (coders this) type with
     | Some p => coder_obj p
     | None => ask_ (coders this) type
     end).

Definition pg_tmbmt_coders (self : VALUE) : M rb_hash :=
  this <- DATA_PTR self ;;
  let hash_coders := rb_hash_new in
  let hash_coders := fold_left (ADD_TO_HASH this) FOR_EACH_MRI_TYPE hash_coders in
  ret (rb_hash_freeze hash_coders).

End Operations.

(** ** [pg_tmbmt_mark] *)

Section Marking.
Context {RO : RubyObjects}.

(** [GC_MARK_AS_USED(type)]: the values handed to [rb_gc_mark], in
    order. *)
Definition GC_MARK_AS_USED (this : t_tmbmt) (type : mri_type) : list VALUE :=
  (match coder_ (coders this) type with
   | Some p => [coder_obj p]
   | None => []
   end)
  ++ [ask_ (coders this) type].

(** The mark function of the object: every value it hands to
    [rb_gc_mark], in order. *)
Definition pg_tmbmt_mark (this : t_tmbmt) : list VALUE :=
  flat_map (GC_MARK_AS_USED this) FOR_EACH_MRI_TYPE.

End Marking.

(** ** Notions used to state the properties *)

Section Notions.
Context {RO : RubyObjects} {RM : RubyMethods}.

(** A slot is static when its [coder_] pointer is set and dynamic when its
    [ask_] value is not nil; the invariant of the table is that no slot is
    both. *)
Definition slot_static (this : t_tmbmt) (type : mri_type) : Prop :=
  coder_ (coders this) type <> None.

Definition slot_dynamic (this : t_tmbmt) (type : mri_type) : Prop :=
  ask_ (coders this) type <> Qnil.

Definition tmbmt_inv (this : t_tmbmt) : Prop :=
  forall type, ~ (slot_static this type /\ slot_dynamic this type).

(** An instance of [PG::Coder] as the coder classes of the extension make
    them: the object wraps a [t_pg_coder] struct whose [coder_obj] field
    refers back to the object. *)
Definition coder_instance (c : VALUE) : Prop :=
  rb_obj_is_kind_of c rb_cPG_Coder = true /\
  exists p, Data_Get_Struct c = Some p /\ coder_obj p = c.

(** The two fields that [COMPARE_AND_ASSIGN] stores for a value. *)
Definition assigned_fields (coder : VALUE) : option t_pg_coder * VALUE :=
  if NIL_P coder then (None, Qnil)
  else if rb_obj_is_kind_of coder rb_cPG_Coder then (Data_Get_Struct coder, Qnil)
  else (None, coder).

(** The table after [COMPARE_AND_ASSIGN(type)] has stored them. *)
Definition assign_slot (type : mri_type) (coder : VALUE) (this : t_tmbmt) : t_tmbmt :=
  store_ask type (snd (assigned_fields coder))
    (store_coder type (fst (assigned_fields coder)) this).

(** The call that dispatch makes for a resolver [ask] and a value [v]. *)
Definition resolver_call (self ask v : VALUE) : funcall :=
  if ruby_value_type_eq_dec (TYPE ask) (Mri T_SYMBOL)
  then mk_funcall self (SYM2ID ask) [v]
  else mk_funcall ask (rb_intern "call") [v].

Definition run_call (c : funcall) (this : t_tmbmt) : outcome VALUE * t_tmbmt :=
  rb_method_body (call_recv c) (call_mid c) (call_args c) this.

(** Ruby methods keep a property of the table. *)
Definition methods_preserve (P : t_tmbmt -> Prop) : Prop :=
  forall recv mid args this r this',
    rb_method_body recv mid args this = (r, this') -> P this -> P this'.

(** A sequence of [typemap[mri_type] = coder] calls. *)
Fixpoint assign_all (self : VALUE) (l : list (VALUE * VALUE)) : M unit :=
  match l with
  | [] => ret tt
  | (mri_type, coder) :: rest =>
      pg_tmbmt_aset self mri_type coder ;; assign_all self rest
  end.

(** The value of the last assignment of a sequence made under the name
    [s], if there is one. *)
Fixpoint last_assign (s : string) (l : list (VALUE * VALUE)) : option VALUE :=
  match l with
  | [] => None
  | (mri_type, coder) :: rest =>
      match last_assign s rest with
      | Some v => Some v
      | None =>
          match StringValueCStr mri_type with
          | Normal s0 => if String.eqb s0 s then Some coder else None
          | Raised _ => None
          end
      end
  end.

Definition INT_MAX : Z := 2147483647.

End Notions.

(** ** A small Ruby runtime *)

(** Enough of Ruby to run the functions above: a few kinds of objects,
    constant procs, and no methods on anything but procs. *)
Module Mini.

Inductive value : Set :=
  | Nil
  | Int (n : Z)
  | Str (s : string)
  | Sym (name : string)
  | Coder (name : string)       (* an instance of a PG::Coder subclass *)
  | Proc (result : value)       (* proc { |v| result } *)
  | TypeMap                     (* the PG::TypeMapByMriType instance *)
  | Class (name : string).

Definition value_eq_dec (a b : value) : {a = b} + {a <> b}.
Proof. decide equality; try apply string_dec; apply Z.eq_dec. Defined.

Definition type_of (v : value) : ruby_value_type :=
  match v with
  | Nil => T_NIL
  | Int _ => Mri T_FIXNUM
  | Str _ => Mri T_STRING
  | Sym _ => Mri T_SYMBOL
  | Coder _ | Proc _ | TypeMap => Mri T_DATA
  | Class _ => Mri T_CLASS
  end.

Definition classname (v : value) : string :=
  match v with
  | Nil => "NilClass"
  | Int _ => "Integer"
  | Str _ => "String"
  | Sym _ => "Symbol"
  | Coder name => name
  | Proc _ => "Proc"
  | TypeMap => "PG::TypeMapByMriType"
  | Class _ => "Class"
  end.

Definition is_kind_of (obj klass : value) : bool :=
  match obj, klass with
  | Coder _, Class k => String.eqb k "PG::Coder"
  | _, _ => false
  end.

Fixpoint has_nul (s : string) : bool :=
  match s with
  | EmptyString => false
  | String c rest => Ascii.eqb c Ascii.zero || has_nul rest
  end.

Definition string_value_cstr (v : value) : outcome string :=
  match v with
  | Str s =>
      if has_nul s
      then Raised (mk_exception rb_eArgError "string contains null byte")
      else Normal s
  | _ =>
      Raised (mk_exception rb_eTypeError
                ("no implicit conversion of " ++ classname v ++ " into String"))
  end.

Definition dquote : string := String (ascii_of_nat 34) EmptyString.

(** [inspect] of a string without characters to escape; of other objects
    only a placeholder. *)
Definition inspect (v : value) : value :=
  match v with
  | Str s => Str (dquote ++ s ++ dquote)
  | _ => Str ("#<" ++ classname v ++ ">")
  end.

#[export] Instance objects : RubyObjects := {|
  VALUE := value;
  VALUE_eq_dec := value_eq_dec;
  Qnil := Nil;
  rb_cPG_Coder := Class "PG::Coder";
  TYPE := type_of;
  rb_obj_is_kind_of := is_kind_of;
  rb_obj_classname := classname;
  SYM2ID := fun v => match v with Sym name => name | _ => EmptyString end;
  StringValueCStr := string_value_cstr;
  rb_string_value := fun v => v;
  rb_inspect := inspect;
  t_pg_coder := string;
  coder_obj := Coder;
  Data_Get_Struct := fun v => match v with Coder name => Some name | _ => None end
|}.

Definition method_body (recv : value) (mid : ID) (args : list value)
  (this : t_tmbmt) : outcome value * t_tmbmt :=
  match recv with
  | Proc result =>
      if String.eqb mid "call" then (Normal result, this)
      else (Raised (mk_exception (rb_eOther "NoMethodError")
                      ("undefined method " ++ mid ++ " for Proc")), this)
  | _ =>
      (Raised (mk_exception (rb_eOther "NoMethodError")
                 ("undefined method " ++ mid ++ " for " ++ classname recv)), this)
  end.

#[export] Instance methods : RubyMethods := {|
  rb_method_body := method_body
|}.

(** The state right after [PG::TypeMapByMriType.new]. *)
Definition fresh : world :=
  {| this_ := pg_tmbmt_s_allocate (Class "PG::TypeMapByMriType");
     funcalls := [] |}.

(** The state after [tm[name] = v] on a new type map. *)
Definition after_assign (name : string) (v : value) : world :=
  snd (pg_tmbmt_aset TypeMap (Str name) v fresh).

(** Procs that, besides returning their result, assign nil under
    ["T_STRING"] on the type map they are called for:
    [proc { |v| tm["T_STRING"] = nil; result }]. *)
Definition clearing_methods : RubyMethods :=
  {| rb_method_body := fun recv mid args this =>
       let (r, this') := method_body recv mid args this in
       (r, assign_slot T_STRING Nil this') |}.


(** Three assignments, two of them under the same name. *)
Definition three_assignments : list (value * value) :=
  [ (Str "T_FIXNUM", Coder "PG::TextEncoder::Float");
    (Str "T_ARRAY", Proc Nil);
    (Str "T_FIXNUM", Coder "PG::TextEncoder::Integer") ].

End Mini.

(** * Properties *)

Section Properties.
Context {RO : RubyObjects} {RM : RubyMethods}.

(** ** Names and the comparison chain *)

Lemma mri_type_eqb_refl (type : mri_type) : mri_type_eqb type type = true.
Proof. unfold mri_type_eqb. destruct (mri_type_eq_dec type type); congruence. Qed.

Lemma mri_type_eqb_neq (a b : mri_type) : a <> b -> mri_type_eqb a b = false.
Proof. unfold mri_type_eqb. destruct (mri_type_eq_dec a b); congruence. Qed.

Lemma strcmp_zero (a b : string) : (strcmp a b =? 0) = true -> a = b.
Proof.
  unfold strcmp. destruct (String.compare a b) eqn:E; try discriminate.
  intros _. now apply String.compare_eq_iff.
Qed.

Lemma all_listed (type : mri_type) : In type FOR_EACH_MRI_TYPE.
Proof. destruct type; simpl; tauto. Qed.

Lemma compare_chain_name (type : mri_type) :
  compare_chain (mri_type_name type) = Some type.
Proof. destruct type; reflexivity. Qed.

Lemma compare_chain_Some (s : string) (type : mri_type) :
  compare_chain s = Some type -> s = mri_type_name type.
Proof.
  unfold compare_chain. intros H.
  apply find_some in H. destruct H as [_ H]. now apply strcmp_zero.
Qed.


Lemma mri_type_name_inj (a b : mri_type) :
  mri_type_name a = mri_type_name b -> a = b.
Proof.
  intros H. pose proof (compare_chain_name a) as Ha.
  rewrite H, compare_chain_name in Ha. congruence.
Qed.

Lemma NIL_P_true (v : VALUE) : NIL_P v = true <-> v = Qnil.
Proof. unfold NIL_P. destruct (VALUE_eq_dec v Qnil); split; congruence. Qed.

Lemma NIL_P_false (v : VALUE) : NIL_P v = false <-> v <> Qnil.
Proof. unfold NIL_P. destruct (VALUE_eq_dec v Qnil); split; congruence. Qed.

Lemma NIL_P_Qnil : NIL_P Qnil = true.
Proof. now apply NIL_P_true. Qed.

(** ** Dispatch, step by step *)

Lemma typecast_default (self v : VALUE) (field : Z) (w : world) :
  (forall type, TYPE v <> Mri type) ->
  pg_tmbmt_typecast_query_param self v field w = (Normal None, w).
Proof.
  intros H. unfold pg_tmbmt_typecast_query_param, bind, DATA_PTR.
  destruct (TYPE v) eqn:E; try (now destruct (H type));
    rewrite NIL_P_Qnil; reflexivity.
Qed.

Lemma typecast_no_ask (self v : VALUE) (field : Z) (w : world) (type : mri_type) :
  TYPE v = Mri type ->
  ask_ (coders (this_ w)) type = Qnil ->
  pg_tmbmt_typecast_query_param self v field w
  = (Normal (coder_ (coders (this_ w)) type), w).
Proof.
  intros Hty Hask. unfold pg_tmbmt_typecast_query_param, bind, DATA_PTR.
  rewrite Hty. unfold CASE_AND_GET. rewrite Hask, NIL_P_Qnil. reflexivity.
Qed.

Lemma rb_funcall_call (c : funcall) (w : world) :
  rb_funcall (call_recv c) (call_mid c) (call_args c) w
  = (fst (run_call c (this_ w)),
     {| this_ := snd (run_call c (this_ w));
        funcalls := funcalls w ++ [c] |}).
Proof.
  unfold rb_funcall, run_call. destruct c as [recv mid args]. simpl.
  destruct (rb_method_body recv mid args (this_ w)); reflexivity.
Qed.

(** With a resolver in the slot, dispatch makes exactly the call
    [resolver_call] and then looks at what came back. *)
Lemma typecast_ask (self v : VALUE) (field : Z) (w : world) (type : mri_type) :
  TYPE v = Mri type ->
  ask_ (coders (this_ w)) type <> Qnil ->
  let c := resolver_call self (ask_ (coders (this_ w)) type) v in
  let w' := {| this_ := snd (run_call c (this_ w));
               funcalls := funcalls w ++ [c] |} in
  pg_tmbmt_typecast_query_param self v field w
  = match fst (run_call c (this_ w)) with
    | Normal obj =>
        if rb_obj_is_kind_of obj rb_cPG_Coder
        then (Normal (Data_Get_Struct obj), w')
        else (Raised (mk_exception rb_eTypeError
                        ("argument " ++ format_d (int_add field 1)
                         ++ " has invalid type " ++ rb_obj_classname obj
                         ++ " (should be nil or some kind of PG::Coder)")), w')
    | Raised e => (Raised e, w')
    end.
Proof.
  intros Hty Hask c w'. unfold pg_tmbmt_typecast_query_param, DATA_PTR.
  unfold bind at 1. rewrite Hty. unfold CASE_AND_GET.
  apply NIL_P_false in Hask. rewrite Hask. cbn [negb]. unfold bind. cbv beta.
  assert (Hcall :
    (if ruby_value_type_eq_dec (TYPE (ask_ (coders (this_ w)) type)) (Mri T_SYMBOL)
     then rb_funcall self (SYM2ID (ask_ (coders (this_ w)) type)) [v]
     else rb_funcall (ask_ (coders (this_ w)) type) (rb_intern "call") [v]) w
    = (fst (run_call c (this_ w)), w')).
  { subst c w'. unfold resolver_call.
    destruct (ruby_value_type_eq_dec _ _); apply (rb_funcall_call (mk_funcall _ _ _)). }
  rewrite Hcall.
  destruct (fst (run_call c (this_ w))) as [obj|e]; [|reflexivity].
  destruct (rb_obj_is_kind_of obj rb_cPG_Coder); reflexivity.
Qed.

Lemma int_add_succ (field : Z) :
  - 2147483648 <= field < INT_MAX -> int_add field 1 = field + 1.
Proof.
  unfold int_add, INT_MAX. intros H.
  rewrite Z.mod_small by lia. lia.
Qed.

(** ** Assignment and lookup, step by step *)

Lemma COMPARE_AND_ASSIGN_run (type : mri_type) (coder : VALUE) (w : world) :
  COMPARE_AND_ASSIGN type coder w
  = (Normal tt, {| this_ := assign_slot type coder (this_ w);
                   funcalls := funcalls w |}).
Proof.
  unfold COMPARE_AND_ASSIGN, assign_slot, assigned_fields.
  destruct (NIL_P coder); [reflexivity|].
  destruct (rb_obj_is_kind_of coder rb_cPG_Coder); reflexivity.
Qed.

Lemma aset_known (self key coder : VALUE) (type : mri_type) (w : world) :
  StringValueCStr key = Normal (mri_type_name type) ->
  pg_tmbmt_aset self key coder w
  = (Normal self, {| this_ := assign_slot type coder (this_ w);
                     funcalls := funcalls w |}).
Proof.
  intros H. unfold pg_tmbmt_aset, bind, lift. rewrite H, compare_chain_name.
  rewrite COMPARE_AND_ASSIGN_run. reflexivity.
Qed.

Lemma unknown_mri_type_state {A : Type} (key : VALUE) (w : world) :
  exists e, @unknown_mri_type _ A key w = (Raised e, w).
Proof.
  unfold unknown_mri_type, bind, lift, rb_raise.
  destruct (StringValueCStr (rb_inspect key)); eauto.
Qed.

Lemma aset_cases (self key coder : VALUE) (w : world) :
  (exists e, pg_tmbmt_aset self key coder w = (Raised e, w)) \/
  (exists type,
     StringValueCStr key = Normal (mri_type_name type) /\
     pg_tmbmt_aset self key coder w
     = (Normal self, {| this_ := assign_slot type coder (this_ w);
                        funcalls := funcalls w |})).
Proof.
  destruct (StringValueCStr key) as [s|e] eqn:Hs.
  - destruct (compare_chain s) as [type|] eqn:Hc.
    + right. exists type. apply compare_chain_Some in Hc. subst s.
      split; [reflexivity|]. now apply aset_known.
    + left. unfold pg_tmbmt_aset, bind, lift. rewrite Hs, Hc.
      destruct (@unknown_mri_type_state unit (rb_string_value key) w) as [e He].
      exists e. now rewrite He.
  - left. exists e. unfold pg_tmbmt_aset, bind, lift. now rewrite Hs.
Qed.

Lemma aref_known (self key : VALUE) (type : mri_type) (w : world) :
  StringValueCStr key = Normal (mri_type_name type) ->
  pg_tmbmt_aref self key w = (Normal (COMPARE_AND_GET (this_ w) type), w).
Proof.
  intros H. unfold pg_tmbmt_aref, bind, lift, DATA_PTR.
  rewrite H, compare_chain_name. reflexivity.
Qed.

Lemma aref_state (self key : VALUE) (w : world) :
  snd (pg_tmbmt_aref self key w) = w.
Proof.
  unfold pg_tmbmt_aref, bind, lift, DATA_PTR.
  destruct (StringValueCStr key) as [s|e]; [|reflexivity].
  destruct (compare_chain s); [reflexivity|].
  destruct (@unknown_mri_type_state VALUE (rb_string_value key) w) as [e He].
  now rewrite He.
Qed.


(** ** The fields after an assignment *)

Lemma assign_slot_same (type : mri_type) (coder : VALUE) (this : t_tmbmt) :
  coder_ (coders (assign_slot type coder this)) type = fst (assigned_fields coder) /\
  ask_ (coders (assign_slot type coder this)) type = snd (assigned_fields coder).
Proof. unfold assign_slot. simpl. now rewrite mri_type_eqb_refl. Qed.

Lemma assign_slot_other (type type' : mri_type) (coder : VALUE) (this : t_tmbmt) :
  type' <> type ->
  coder_ (coders (assign_slot type coder this)) type' = coder_ (coders this) type' /\
  ask_ (coders (assign_slot type coder this)) type' = ask_ (coders this) type'.
Proof. intros H. unfold assign_slot. simpl. now rewrite (mri_type_eqb_neq _ _ H). Qed.

Lemma assigned_fields_cases (coder : VALUE) :
  (coder = Qnil /\ assigned_fields coder = (None, Qnil)) \/
  (coder <> Qnil /\ rb_obj_is_kind_of coder rb_cPG_Coder = true /\
   assigned_fields coder = (Data_Get_Struct coder, Qnil)) \/
  (coder <> Qnil /\ rb_obj_is_kind_of coder rb_cPG_Coder = false /\
   assigned_fields coder = (None, coder)).
Proof.
  unfold assigned_fields. destruct (NIL_P coder) eqn:E.
  - left. now apply NIL_P_true in E.
  - apply NIL_P_false in E. right.
    destruct (rb_obj_is_kind_of coder rb_cPG_Coder); [left|right]; auto.
Qed.

Lemma assigned_fields_one (coder : VALUE) :
  fst (assigned_fields coder) = None \/ snd (assigned_fields coder) = Qnil.
Proof.
  destruct (assigned_fields_cases coder) as [[_ H]|[[_ [_ H]]|[_ [_ H]]]];
    rewrite H; simpl; auto.
Qed.

Lemma assign_slot_inv (type : mri_type) (coder : VALUE) (this : t_tmbmt) :
  tmbmt_inv this -> tmbmt_inv (assign_slot type coder this).
Proof.
  intros Hinv type' [Hs Hd]. unfold slot_static, slot_dynamic in *.
  destruct (mri_type_eq_dec type' type) as [->|Hne].
  - destruct (assign_slot_same type coder this) as [Hc Ha].
    rewrite Hc in Hs. rewrite Ha in Hd.
    destruct (assigned_fields_one coder); contradiction.
  - destruct (assign_slot_other type type' coder this Hne) as [Hc Ha].
    rewrite Hc in Hs. rewrite Ha in Hd. apply (Hinv type'). now split.
Qed.

Lemma allocate_empty (klass : VALUE) (type : mri_type) :
  coder_ (coders (pg_tmbmt_s_allocate klass)) type = None /\
  ask_ (coders (pg_tmbmt_s_allocate klass)) type = Qnil.
Proof. split; reflexivity. Qed.

Lemma allocate_inv (klass : VALUE) : tmbmt_inv (pg_tmbmt_s_allocate klass).
Proof. intros type [Hs _]. now apply Hs. Qed.

(** What [typemap[mri_type]] reports right after an assignment is the
    assigned value itself, as long as coder objects are proper instances. *)
Lemma get_after_assign (type : mri_type) (coder : VALUE) (this : t_tmbmt) :
  (rb_obj_is_kind_of coder rb_cPG_Coder = true -> coder_instance coder) ->
  COMPARE_AND_GET (assign_slot type coder this) type = coder.
Proof.
  intros Hc. unfold COMPARE_AND_GET.
  destruct (assign_slot_same type coder this) as [-> ->].
  destruct (assigned_fields_cases coder) as [[E H]|[[_ [K H]]|[_ [_ H]]]];
    rewrite H; simpl; auto.
  destruct (Hc K) as [_ [p [Hp Ho]]]. now rewrite Hp.
Qed.

Lemma get_after_assign_nil (type : mri_type) (this : t_tmbmt) :
  COMPARE_AND_GET (assign_slot type Qnil this) type = Qnil.
Proof.
  unfold COMPARE_AND_GET.
  destruct (assign_slot_same type Qnil this) as [-> ->].
  unfold assigned_fields. now rewrite NIL_P_Qnil.
Qed.

Lemma get_after_assign_other (type type' : mri_type) (coder : VALUE) (this : t_tmbmt) :
  type' <> type ->
  COMPARE_AND_GET (assign_slot type coder this) type' = COMPARE_AND_GET this type'.
Proof.
  intros H. unfold COMPARE_AND_GET.
  now destruct (assign_slot_other type type' coder this H) as [-> ->].
Qed.

(** ** Sequences of assignments and the hash of [coders] *)

Lemma coders_run (self : VALUE) (w : world) :
  pg_tmbmt_coders self w
  = (Normal (rb_hash_freeze
               (fold_left (ADD_TO_HASH (this_ w)) FOR_EACH_MRI_TYPE rb_hash_new)), w).
Proof. reflexivity. Qed.

Lemma coders_entries (this : t_tmbmt) :
  hash_entries (fold_left (ADD_TO_HASH this) FOR_EACH_MRI_TYPE rb_hash_new)
  = map (fun type => (rb_str_freeze (rb_str_new2 (mri_type_name type)),
                      COMPARE_AND_GET this type))
        FOR_EACH_MRI_TYPE.
Proof. reflexivity. Qed.

Lemma coders_lookup (this : t_tmbmt) (type : mri_type) :
  hash_lookup
    (hash_entries (fold_left (ADD_TO_HASH this) FOR_EACH_MRI_TYPE rb_hash_new))
    (mri_type_name type)
  = Some (COMPARE_AND_GET this type).
Proof. rewrite coders_entries. destruct type; reflexivity. Qed.

Lemma names_NoDup : NoDup (map mri_type_name FOR_EACH_MRI_TYPE).
Proof.
  apply Injective_map_NoDup.
  - intros a b. apply mri_type_name_inj.
  - unfold FOR_EACH_MRI_TYPE.
    repeat (constructor; [simpl; intuition discriminate|]). constructor.
Qed.

Lemma assign_all_get (self : VALUE) (l : list (VALUE * VALUE)) :
  (forall key c, In (key, c) l ->
                 rb_obj_is_kind_of c rb_cPG_Coder = true -> coder_instance c) ->
  forall w w', assign_all self l w = (Normal tt, w') ->
  forall type,
    COMPARE_AND_GET (this_ w') type
    = match last_assign (mri_type_name type) l with
      | Some v => v
      | None => COMPARE_AND_GET (this_ w) type
      end.
Proof.
  induction l as [|[key c] rest IH]; intros Hc w w' Hrun type.
  - simpl in *. unfold ret in Hrun. now inversion Hrun.
  - simpl in Hrun. unfold bind in Hrun.
    destruct (aset_cases self key c w) as [[e He]|[t0 [Hs Ha]]].
    + rewrite He in Hrun. discriminate.
    + rewrite Ha in Hrun.
      assert (Hc' : forall key c, In (key, c) rest ->
                rb_obj_is_kind_of c rb_cPG_Coder = true -> coder_instance c).
      { intros k0 c0 Hin. apply (Hc k0 c0). now right. }
      rewrite (IH Hc' _ _ Hrun type). simpl.
      destruct (last_assign (mri_type_name type) rest); [reflexivity|].
      rewrite Hs. destruct (String.eqb_spec (mri_type_name t0) (mri_type_name type)) as [E|E].
      * apply mri_type_name_inj in E. subst t0.
        apply get_after_assign. apply (Hc key c). now left.
      * apply get_after_assign_other. congruence.
Qed.

(** The only way dispatch changes the state is through the one call it
    makes for a resolver. *)
Lemma typecast_state (self v : VALUE) (field : Z) (w : world) :
  snd (pg_tmbmt_typecast_query_param self v field w) = w \/
  exists c, snd (pg_tmbmt_typecast_query_param self v field w)
            = {| this_ := snd (run_call c (this_ w));
                 funcalls := funcalls w ++ [c] |}.
Proof.
  destruct (TYPE v) as [type| | | | | | |] eqn:Hty;
    try (left; rewrite typecast_default; [reflexivity|congruence]).
  destruct (VALUE_eq_dec (ask_ (coders (this_ w)) type) Qnil) as [Hask|Hask].
  - left. now rewrite (typecast_no_ask self v field w type Hty Hask).
  - right. exists (resolver_call self (ask_ (coders (this_ w)) type) v).
    rewrite (typecast_ask self v field w type Hty Hask).
    destruct (fst (run_call _ (this_ w))) as [obj|e]; [|reflexivity].
    destruct (rb_obj_is_kind_of obj rb_cPG_Coder); reflexivity.
Qed.

(** * The claims *)

(** C1 (the code departs from the claim): when the resolver of the slot
    returns nil, and nil is not a kind of [PG::Coder], dispatch does not
    return NULL but raises the TypeError whose own text says that nil is
    accepted. *)
Theorem dispatch_resolver_nil_raises
  (self v : VALUE) (field : Z) (w : world) (type : mri_type) (this' : t_tmbmt) :
  rb_obj_is_kind_of Qnil rb_cPG_Coder = false ->
  TYPE v = Mri type ->
  ask_ (coders (this_ w)) type <> Qnil ->
  run_call (resolver_call self (ask_ (coders (this_ w)) type) v) (this_ w)
  = (Normal Qnil, this') ->
  pg_tmbmt_typecast_query_param self v field w
  = (Raised (mk_exception rb_eTypeError
               ("argument " ++ format_d (int_add field 1)
                ++ " has invalid type " ++ rb_obj_classname Qnil
                ++ " (should be nil or some kind of PG::Coder)")),
     {| this_ := this';
        funcalls := funcalls w
                    ++ [resolver_call self (ask_ (coders (this_ w)) type) v] |}).
Proof.
  intros Hnil Hty Hask Hrun.
  rewrite (typecast_ask self v field w type Hty Hask).
  rewrite Hrun. simpl. now rewrite Hnil.
Qed.

(** C2: when the resolver of the slot returns a value that is neither nil
    nor a kind of [PG::Coder], dispatch raises a TypeError whose message
    carries the field index plus one and the class name of the returned
    value. *)
Theorem dispatch_bad_resolver_result
  (self v obj : VALUE) (field : Z) (w : world) (type : mri_type) (this' : t_tmbmt) :
  0 <= field < INT_MAX ->
  TYPE v = Mri type ->
  ask_ (coders (this_ w)) type <> Qnil ->
  run_call (resolver_call self (ask_ (coders (this_ w)) type) v) (this_ w)
  = (Normal obj, this') ->
  obj <> Qnil ->
  rb_obj_is_kind_of obj rb_cPG_Coder = false ->
  pg_tmbmt_typecast_query_param self v field w
  = (Raised (mk_exception rb_eTypeError
               ("argument " ++ format_d (field + 1)
                ++ " has invalid type " ++ rb_obj_classname obj
                ++ " (should be nil or some kind of PG::Coder)")),
     {| this_ := this';
        funcalls := funcalls w
                    ++ [resolver_call self (ask_ (coders (this_ w)) type) v] |}).
Proof.
  intros Hfield Hty Hask Hrun _ Hkind.
  rewrite (typecast_ask self v field w type Hty Hask).
  rewrite Hrun. simpl. rewrite Hkind.
  rewrite int_add_succ by (unfold INT_MAX in *; lia). reflexivity.
Qed.

(** C3: for a value whose type code is none of the eighteen listed ones,
    dispatch returns NULL, raises nothing, calls nothing and leaves the
    state as it was. *)
Theorem dispatch_unlisted_type (self v : VALUE) (field : Z) (w : world) :
  (forall type, TYPE v <> Mri type) ->
  pg_tmbmt_typecast_query_param self v field w = (Normal None, w).
Proof. apply typecast_default. Qed.


(** C5: for a key naming a listed type, assigning nil and then looking the
    key up gives nil, and assigning a coder instance and then looking the
    key up gives that same object. *)
Theorem assign_then_lookup (self key : VALUE) (type : mri_type) (w : world) :
  StringValueCStr key = Normal (mri_type_name type) ->
  (exists w', pg_tmbmt_aset self key Qnil w = (Normal self, w') /\
              pg_tmbmt_aref self key w' = (Normal Qnil, w')) /\
  (forall c, coder_instance c ->
     exists w', pg_tmbmt_aset self key c w = (Normal self, w') /\
                pg_tmbmt_aref self key w' = (Normal c, w')).
Proof.
  intros Hs. split; [|intros c Hc];
    eexists; (split; [apply (aset_known _ _ _ _ _ Hs)|]);
    rewrite (aref_known _ _ _ _ Hs); simpl.
  - now rewrite get_after_assign_nil.
  - now rewrite get_after_assign.
Qed.

(** C6: a new table has every slot empty; every operation keeps the
    invariant that no slot is static and dynamic at once (dispatch as long
    as the Ruby methods it calls keep it); and a successful assignment
    leaves its slot in exactly one of the three states, chosen by the
    assigned value, with the other field cleared and the other slots as
    they were. *)
Theorem slot_invariant
  (klass self key coder v params : VALUE) (field : Z) (w : world) :
  (forall type, coder_ (coders (pg_tmbmt_s_allocate klass)) type = None /\
                ask_ (coders (pg_tmbmt_s_allocate klass)) type = Qnil) /\
  tmbmt_inv (pg_tmbmt_s_allocate klass) /\
  (tmbmt_inv (this_ w) ->
     tmbmt_inv (this_ (snd (pg_tmbmt_aset self key coder w))) /\
     tmbmt_inv (this_ (snd (pg_tmbmt_aref self key w))) /\
     tmbmt_inv (this_ (snd (pg_tmbmt_coders self w))) /\
     tmbmt_inv (this_ (snd (pg_tmbmt_fit_to_query self params w))) /\
     (methods_preserve tmbmt_inv ->
      tmbmt_inv (this_ (snd (pg_tmbmt_typecast_query_param self v field w))))) /\
  (forall r w', pg_tmbmt_aset self key coder w = (Normal r, w') ->
     exists type,
       StringValueCStr key = Normal (mri_type_name type) /\
       let this' := this_ w' in
       ((coder = Qnil /\
         coder_ (coders this') type = None /\ ask_ (coders this') type = Qnil) \/
        (coder <> Qnil /\ rb_obj_is_kind_of coder rb_cPG_Coder = true /\
         coder_ (coders this') type = Data_Get_Struct coder /\
         ask_ (coders this') type = Qnil) \/
        (coder <> Qnil /\ rb_obj_is_kind_of coder rb_cPG_Coder = false /\
         coder_ (coders this') type = None /\ ask_ (coders this') type = coder)) /\
       (forall type', type' <> type ->
          coder_ (coders this') type' = coder_ (coders (this_ w)) type' /\
          ask_ (coders this') type' = ask_ (coders (this_ w)) type')).
Proof.
  split; [apply allocate_empty|]. split; [apply allocate_inv|]. split.
  - intros Hinv. repeat split.
    + destruct (aset_cases self key coder w) as [[e H]|[type [_ H]]];
        rewrite H; simpl; auto using assign_slot_inv.
    + now rewrite aref_state.
    + exact Hinv.
    + exact Hinv.
    + intros Hm.
      destruct (typecast_state self v field w) as [H|[c H]]; rewrite H; auto.
      simpl. unfold run_call.
      destruct (rb_method_body (call_recv c) (call_mid c) (call_args c) (this_ w))
        as [r this'] eqn:E.
      simpl. exact (Hm _ _ _ _ _ _ E Hinv).
  - intros r w' Hrun.
    destruct (aset_cases self key coder w) as [[e H]|[type [Hs H]]];
      rewrite H in Hrun; [discriminate|].
    inversion Hrun; subst r w'; clear Hrun.
    exists type. split; [exact Hs|]. cbv zeta. cbn [this_]. split.
    + destruct (assign_slot_same type coder (this_ w)) as [-> ->].
      destruct (assigned_fields_cases coder) as [[E F]|[[E [K F]]|[E [K F]]]];
        rewrite F; simpl; auto 10.
    + intros type' Hne. now apply assign_slot_other.
Qed.

(** C7: after a sequence of successful assignments on a new table,
    [coders] returns a frozen hash whose keys are the eighteen names, each
    once, and whose value under a name is what [[]] reports for it: the
    value of the last assignment under that name, or nil if there is none
    (coder objects being proper instances). *)
Theorem coders_lists_every_type
  (self klass : VALUE) (l : list (VALUE * VALUE)) (w0 w : world) :
  this_ w0 = pg_tmbmt_s_allocate klass ->
  (forall key c, In (key, c) l ->
                 rb_obj_is_kind_of c rb_cPG_Coder = true -> coder_instance c) ->
  assign_all self l w0 = (Normal tt, w) ->
  exists h,
    pg_tmbmt_coders self w = (Normal h, w) /\
    hash_frozen h = true /\
    map (fun e => str_bytes (fst e)) (hash_entries h)
    = map mri_type_name FOR_EACH_MRI_TYPE /\
    NoDup (map mri_type_name FOR_EACH_MRI_TYPE) /\
    forall type,
      let reported := match last_assign (mri_type_name type) l with
                      | Some c => c
                      | None => Qnil
                      end in
      hash_lookup (hash_entries h) (mri_type_name type) = Some reported /\
      forall key, StringValueCStr key = Normal (mri_type_name type) ->
                  pg_tmbmt_aref self key w = (Normal reported, w).
Proof.
  intros Hfresh Hc Hrun. eexists. split; [apply coders_run|].
  split; [reflexivity|]. split; [reflexivity|]. split; [apply names_NoDup|].
  intros type reported.
  assert (Hget : COMPARE_AND_GET (this_ w) type = reported).
  { rewrite (assign_all_get self l Hc w0 w Hrun type). subst reported.
    destruct (last_assign (mri_type_name type) l); [reflexivity|].
    rewrite Hfresh. reflexivity. }
  split.
  - cbn [rb_hash_freeze hash_entries]. now rewrite coders_lookup, Hget.
  - intros key Hs. now rewrite (aref_known self key type w Hs), Hget.
Qed.

(** C8: for a value of a listed type whose slot holds a coder pointer, in a
    table that satisfies the invariant, dispatch returns that pointer; the
    state, with its record of calls made, is as before. *)
Theorem dispatch_static_coder
  (self v : VALUE) (field : Z) (w : world) (type : mri_type) (c : t_pg_coder) :
  tmbmt_inv (this_ w) ->
  TYPE v = Mri type ->
  coder_ (coders (this_ w)) type = Some c ->
  pg_tmbmt_typecast_query_param self v field w = (Normal (Some c), w).
Proof.
  intros Hinv Hty Hc.
  assert (Hask : ask_ (coders (this_ w)) type = Qnil).
  { destruct (VALUE_eq_dec (ask_ (coders (this_ w)) type) Qnil) as [E|E]; [exact E|].
    destruct (Hinv type). unfold slot_static, slot_dynamic. split; congruence. }
  now rewrite (typecast_no_ask self v field w type Hty Hask), Hc.
Qed.

(** C9: [fit_to_query] returns the type map it was called on and leaves
    the state as it was, whatever the parameters. *)
Theorem fit_to_query_identity (self params : VALUE) (w : world) :
  pg_tmbmt_fit_to_query self params w = (Normal self, w).
Proof. reflexivity. Qed.

(** C10: under a valid name, assigning a value that is neither nil nor a
    kind of [PG::Coder] succeeds without any call being made and stores the
    value as the resolver of the slot; if the call that dispatch later makes
    for it raises, that is where the failure shows. *)
Theorem resolver_not_checked_on_assign
  (self key r : VALUE) (type : mri_type) (w : world) :
  StringValueCStr key = Normal (mri_type_name type) ->
  r <> Qnil ->
  rb_obj_is_kind_of r rb_cPG_Coder = false ->
  exists w',
    pg_tmbmt_aset self key r w = (Normal self, w') /\
    funcalls w' = funcalls w /\
    coder_ (coders (this_ w')) type = None /\
    ask_ (coders (this_ w')) type = r /\
    forall v field e this',
      TYPE v = Mri type ->
      run_call (resolver_call self r v) (this_ w') = (Raised e, this') ->
      pg_tmbmt_typecast_query_param self v field w'
      = (Raised e, {| this_ := this';
                      funcalls := funcalls w' ++ [resolver_call self r v] |}).
Proof.
  intros Hs Hr Hk. eexists. split; [apply (aset_known _ _ _ _ _ Hs)|].
  cbn [funcalls this_].
  destruct (assign_slot_same type r (this_ w)) as [Hc Ha].
  assert (F : assigned_fields r = (None, r)).
  { destruct (assigned_fields_cases r) as [[E _]|[[_ [K _]]|[_ [_ F]]]];
      [contradiction|congruence|exact F]. }
  rewrite F in Hc, Ha. cbn [fst snd] in Hc, Ha.
  split; [reflexivity|]. split; [exact Hc|]. split; [exact Ha|].
  intros v field e this' Hty Hrun.
  rewrite (typecast_ask self v field _ type Hty).
  - cbn [this_ funcalls]. rewrite Ha, Hrun. reflexivity.
  - cbn [this_]. rewrite Ha. exact Hr.
Qed.

End Properties.

(** * Further properties of the functions *)

Section MoreProperties.
Context {RO : RubyObjects} {RM : RubyMethods}.

Lemma assign_slot_coder (type t : mri_type) (c : VALUE) (this : t_tmbmt) :
  coder_ (coders (assign_slot type c this)) t
  = if mri_type_eq_dec t type then fst (assigned_fields c)
    else coder_ (coders this) t.
Proof.
  destruct (mri_type_eq_dec t type) as [->|H].
  - apply assign_slot_same.
  - now apply assign_slot_other.
Qed.

Lemma assign_slot_ask (type t : mri_type) (c : VALUE) (this : t_tmbmt) :
  ask_ (coders (assign_slot type c this)) t
  = if mri_type_eq_dec t type then snd (assigned_fields c)
    else ask_ (coders this) t.
Proof.
  destruct (mri_type_eq_dec t type) as [->|H].
  - apply assign_slot_same.
  - now apply assign_slot_other.
Qed.

Lemma aset_known_state (self key coder : VALUE) (type : mri_type) (w : world) :
  StringValueCStr key = Normal (mri_type_name type) ->
  this_ (snd (pg_tmbmt_aset self key coder w)) = assign_slot type coder (this_ w).
Proof. intros H. now rewrite (aset_known self key coder type w H). Qed.

(** ** Dispatch *)

(** X1: when the resolver of the slot returns a kind of [PG::Coder],
    dispatch returns the data pointer of that object, whatever the coder
    pointer of the slot was and whatever the method did to the table. *)
Theorem dispatch_resolver_returns_coder
  (self v obj : VALUE) (field : Z) (w : world) (type : mri_type) (this' : t_tmbmt) :
  TYPE v = Mri type ->
  ask_ (coders (this_ w)) type <> Qnil ->
  run_call (resolver_call self (ask_ (coders (this_ w)) type) v) (this_ w)
  = (Normal obj, this') ->
  rb_obj_is_kind_of obj rb_cPG_Coder = true ->
  pg_tmbmt_typecast_query_param self v field w
  = (Normal (Data_Get_Struct obj),
     {| this_ := this';
        funcalls := funcalls w
                    ++ [resolver_call self (ask_ (coders (this_ w)) type) v] |}).
Proof.
  intros Hty Hask Hrun Hkind.
  rewrite (typecast_ask self v field w type Hty Hask).
  rewrite Hrun. simpl. now rewrite Hkind.
Qed.

(** X2: for a value of a listed type whose slot has neither a coder
    pointer nor a resolver, dispatch returns NULL and the state, with its
    record of calls, is as before. *)
Theorem dispatch_empty_slot
  (self v : VALUE) (field : Z) (w : world) (type : mri_type) :
  TYPE v = Mri type ->
  coder_ (coders (this_ w)) type = None ->
  ask_ (coders (this_ w)) type = Qnil ->
  pg_tmbmt_typecast_query_param self v field w = (Normal None, w).
Proof.
  intros Hty Hc Hask.
  now rewrite (typecast_no_ask self v field w type Hty Hask), Hc.
Qed.

(** X3: with a resolver in the slot, dispatch makes exactly one call,
    whatever comes of it: its only argument is the value; a resolver of type
    [T_SYMBOL] is sent as a method name to the type map itself, any other
    resolver receives [call]. *)
Theorem dispatch_resolver_called_once
  (self v : VALUE) (field : Z) (w : world) (type : mri_type) :
  TYPE v = Mri type ->
  ask_ (coders (this_ w)) type <> Qnil ->
  let ask := ask_ (coders (this_ w)) type in
  let w' := snd (pg_tmbmt_typecast_query_param self v field w) in
  exists c : funcall,
    funcalls w' = (funcalls w ++ [c])%list /\
    this_ w' = snd (run_call c (this_ w)) /\
    call_args c = [v] /\
    ((TYPE ask = Mri T_SYMBOL /\ call_recv c = self /\ call_mid c = SYM2ID ask) \/
     (TYPE ask <> Mri T_SYMBOL /\ call_recv c = ask /\ call_mid c = rb_intern "call")).
Proof.
  intros Hty Hask ask w'.
  exists (resolver_call self ask v).
  assert (Hw : w' = {| this_ := snd (run_call (resolver_call self ask v) (this_ w));
                       funcalls := funcalls w ++ [resolver_call self ask v] |}).
  { subst w'. rewrite (typecast_ask self v field w type Hty Hask). fold ask.
    destruct (fst (run_call (resolver_call self ask v) (this_ w))) as [obj|e];
      [|reflexivity].
    destruct (rb_obj_is_kind_of obj rb_cPG_Coder); reflexivity. }
  rewrite Hw. cbn [funcalls this_]. split; [reflexivity|]. split; [reflexivity|].
  unfold resolver_call.
  destruct (ruby_value_type_eq_dec (TYPE ask) (Mri T_SYMBOL)); cbn; auto.
Qed.

(** X4: an exception raised by the method that the resolver names is
    what dispatch raises, unchanged. *)
Theorem dispatch_resolver_raise_propagates
  (self v : VALUE) (field : Z) (w : world) (type : mri_type)
  (e : exception) (this' : t_tmbmt) :
  TYPE v = Mri type ->
  ask_ (coders (this_ w)) type <> Qnil ->
  run_call (resolver_call self (ask_ (coders (this_ w)) type) v) (this_ w)
  = (Raised e, this') ->
  pg_tmbmt_typecast_query_param self v field w
  = (Raised e,
     {| this_ := this';
        funcalls := funcalls w
                    ++ [resolver_call self (ask_ (coders (this_ w)) type) v] |}).
Proof.
  intros Hty Hask Hrun.
  rewrite (typecast_ask self v field w type Hty Hask). now rewrite Hrun.
Qed.

(** ** Assignment followed by lookup or dispatch *)

(** X5: assigning, under a valid name, a value that is not a kind of
    [PG::Coder] and then looking the name up gives back that very value. *)
Theorem assign_resolver_then_lookup
  (self key r : VALUE) (type : mri_type) (w : world) :
  StringValueCStr key = Normal (mri_type_name type) ->
  rb_obj_is_kind_of r rb_cPG_Coder = false ->
  exists w', pg_tmbmt_aset self key r w = (Normal self, w') /\
             pg_tmbmt_aref self key w' = (Normal r, w').
Proof.
  intros Hs Hk. eexists. split; [apply (aset_known _ _ _ _ _ Hs)|].
  rewrite (aref_known _ _ _ _ Hs). cbn [this_].
  rewrite get_after_assign; [reflexivity|]. congruence.
Qed.

(** X6: after a coder instance is assigned under the name of a type,
    dispatch on any value of that type returns the struct of that coder
    without calling anything, whatever the slot held before. *)
Theorem assign_then_dispatch_coder
  (self key c v : VALUE) (field : Z) (type : mri_type) (w : world) :
  StringValueCStr key = Normal (mri_type_name type) ->
  c <> Qnil ->
  coder_instance c ->
  TYPE v = Mri type ->
  exists w' p,
    pg_tmbmt_aset self key c w = (Normal self, w') /\
    pg_tmbmt_typecast_query_param self v field w' = (Normal (Some p), w') /\
    coder_obj p = c.
Proof.
  intros Hs Hc [Hk [p [Hp Ho]]] Hty.
  eexists. exists p. split; [apply (aset_known _ _ _ _ _ Hs)|].
  split; [|exact Ho].
  destruct (assign_slot_same type c (this_ w)) as [Hco Ha].
  assert (F : assigned_fields c = (Some p, Qnil)).
  { destruct (assigned_fields_cases c) as [[E _]|[[_ [_ F]]|[_ [K _]]]];
      [contradiction|now rewrite F, Hp|congruence]. }
  rewrite F in Hco, Ha. cbn [fst snd] in Hco, Ha.
  rewrite (typecast_no_ask self v field _ type Hty); cbn [this_].
  - now rewrite Hco.
  - exact Ha.
Qed.

(** X7: after nil is assigned under the name of a type, dispatch on any
    value of that type returns NULL without calling anything, whatever the
    slot held before. *)
Theorem assign_nil_then_dispatch
  (self key v : VALUE) (field : Z) (type : mri_type) (w : world) :
  StringValueCStr key = Normal (mri_type_name type) ->
  TYPE v = Mri type ->
  exists w',
    pg_tmbmt_aset self key Qnil w = (Normal self, w') /\
    pg_tmbmt_typecast_query_param self v field w' = (Normal None, w').
Proof.
  intros Hs Hty. eexists. split; [apply (aset_known _ _ _ _ _ Hs)|].
  destruct (assign_slot_same type Qnil (this_ w)) as [Hco Ha].
  unfold assigned_fields in Hco, Ha. rewrite NIL_P_Qnil in Hco, Ha.
  cbn [fst snd] in Hco, Ha.
  rewrite (typecast_no_ask self v field _ type Hty); cbn [this_].
  - now rewrite Hco.
  - exact Ha.
Qed.

(** ** How assignments compose *)

(** X8: a second assignment under the same name overwrites the first:
    every field of the table is as if only the second had been made. *)
Theorem assign_overwrites
  (self key v1 v2 : VALUE) (type : mri_type) (w : world) :
  StringValueCStr key = Normal (mri_type_name type) ->
  let twice := this_ (snd (pg_tmbmt_aset self key v2
                             (snd (pg_tmbmt_aset self key v1 w)))) in
  let once := this_ (snd (pg_tmbmt_aset self key v2 w)) in
  forall t, coder_ (coders twice) t = coder_ (coders once) t /\
            ask_ (coders twice) t = ask_ (coders once) t.
Proof.
  intros Hs twice once t. subst twice once.
  rewrite !(aset_known_state _ _ _ _ _ Hs).
  rewrite !assign_slot_coder, !assign_slot_ask.
  destruct (mri_type_eq_dec t type); auto.
Qed.

(** X9: assignments under the names of two different types commute:
    either order leaves the same fields in every slot. *)
Theorem assign_commute
  (self key1 key2 v1 v2 : VALUE) (type1 type2 : mri_type) (w : world) :
  StringValueCStr key1 = Normal (mri_type_name type1) ->
  StringValueCStr key2 = Normal (mri_type_name type2) ->
  type1 <> type2 ->
  let ab := this_ (snd (pg_tmbmt_aset self key2 v2
                          (snd (pg_tmbmt_aset self key1 v1 w)))) in
  let ba := this_ (snd (pg_tmbmt_aset self key1 v1
                          (snd (pg_tmbmt_aset self key2 v2 w)))) in
  forall t, coder_ (coders ab) t = coder_ (coders ba) t /\
            ask_ (coders ab) t = ask_ (coders ba) t.
Proof.
  intros H1 H2 Hne ab ba t. subst ab ba.
  repeat first [ rewrite (aset_known_state _ _ _ _ _ H1)
               | rewrite (aset_known_state _ _ _ _ _ H2) ].
  rewrite !assign_slot_coder, !assign_slot_ask.
  destruct (mri_type_eq_dec t type1), (mri_type_eq_dec t type2);
    solve [auto | congruence].
Qed.

(** X10: an assignment under the name of one type does not change what
    lookup reports under the name of another type. *)
Theorem assign_other_lookup_unchanged
  (self key1 key2 v : VALUE) (type1 type2 : mri_type) (w : world) :
  StringValueCStr key1 = Normal (mri_type_name type1) ->
  StringValueCStr key2 = Normal (mri_type_name type2) ->
  type1 <> type2 ->
  fst (pg_tmbmt_aref self key2 (snd (pg_tmbmt_aset self key1 v w)))
  = fst (pg_tmbmt_aref self key2 w).
Proof.
  intros H1 H2 Hne.
  rewrite !(aref_known _ _ _ _ H2). cbn [fst].
  rewrite (aset_known_state _ _ _ _ _ H1).
  now rewrite get_after_assign_other by congruence.
Qed.

(** ** Keys *)


(** X12: for a key that has a C string, [[]=] and [[]] return normally
    exactly when that string is one of the eighteen names, compared as a
    whole and with case. *)
Theorem assign_succeeds_iff_name_listed
  (self key coder : VALUE) (s : string) (w : world) :
  StringValueCStr key = Normal s ->
  ((exists r w', pg_tmbmt_aset self key coder w = (Normal r, w'))
   <-> exists type, s = mri_type_name type) /\
  ((exists r w', pg_tmbmt_aref self key w = (Normal r, w'))
   <-> exists type, s = mri_type_name type).
Proof.
  intros Hs. split; split.
  - intros [r [w' H]].
    destruct (aset_cases self key coder w) as [[e He]|[type [Ht _]]].
    + rewrite He in H. discriminate.
    + exists type. congruence.
  - intros [type ->]. do 2 eexists. apply (aset_known _ _ _ _ _ Hs).
  - intros [r [w' H]]. unfold pg_tmbmt_aref, bind, lift, DATA_PTR in H.
    rewrite Hs in H. destruct (compare_chain s) as [type|] eqn:Hc.
    + exists type. now apply compare_chain_Some.
    + destruct (@unknown_mri_type_state _ VALUE (rb_string_value key) w) as [e He].
      rewrite He in H. discriminate.
  - intros [type ->]. do 2 eexists. apply (aref_known _ _ _ _ Hs).
Qed.

(** ** What the mark function keeps alive *)

Lemma mark_uses (this : t_tmbmt) (v : VALUE) :
  In v (pg_tmbmt_mark this) <->
  exists type, In v (GC_MARK_AS_USED this type).
Proof.
  unfold pg_tmbmt_mark. rewrite in_flat_map. split.
  - intros [type [_ H]]. now exists type.
  - intros [type H]. exists type. split; [apply all_listed|exact H].
Qed.

(** X13: the mark function marks exactly the values stored in the
    table: the resolver field of every slot, and the Ruby object of every
    coder struct a slot points to. *)
Theorem marked_iff_stored (this : t_tmbmt) (v : VALUE) :
  In v (pg_tmbmt_mark this) <->
  exists type,
    v = ask_ (coders this) type \/
    exists p, coder_ (coders this) type = Some p /\ v = coder_obj p.
Proof.
  rewrite mark_uses. split; intros [type H]; exists type.
  - unfold GC_MARK_AS_USED in H. apply in_app_or in H. destruct H as [H|H].
    + right. destruct (coder_ (coders this) type) as [p|]; [|contradiction].
      exists p. destruct H as [H|[]]. auto.
    + left. destruct H as [H|[]]. auto.
  - unfold GC_MARK_AS_USED. apply in_or_app.
    destruct H as [->|[p [Hp ->]]]; [right; now left|].
    left. rewrite Hp. now left.
Qed.

Lemma get_is_marked (this : t_tmbmt) (type : mri_type) :
  In (COMPARE_AND_GET this type) (pg_tmbmt_mark this).
Proof.
  apply mark_uses. exists type. unfold COMPARE_AND_GET, GC_MARK_AS_USED.
  apply in_or_app. destruct (coder_ (coders this) type); [left|right]; now left.
Qed.

(** X14: whatever [[]] returns for a valid name is among the values the
    mark function marks. *)
Theorem lookup_value_is_marked
  (self key : VALUE) (type : mri_type) (w : world) :
  StringValueCStr key = Normal (mri_type_name type) ->
  exists v, pg_tmbmt_aref self key w = (Normal v, w) /\
            In v (pg_tmbmt_mark (this_ w)).
Proof.
  intros Hs. eexists. split; [apply (aref_known _ _ _ _ Hs)|].
  apply get_is_marked.
Qed.

(** X15: a value assigned under a valid name (a coder instance, or
    anything that is not a kind of [PG::Coder]) is marked from then on, also
    after an assignment under the name of another type. *)
Theorem assigned_value_is_marked
  (self key key2 c c2 : VALUE) (type type2 : mri_type) (w : world) :
  StringValueCStr key = Normal (mri_type_name type) ->
  StringValueCStr key2 = Normal (mri_type_name type2) ->
  type2 <> type ->
  (rb_obj_is_kind_of c rb_cPG_Coder = true -> coder_instance c) ->
  let w1 := snd (pg_tmbmt_aset self key c w) in
  let w2 := snd (pg_tmbmt_aset self key2 c2 w1) in
  In c (pg_tmbmt_mark (this_ w1)) /\ In c (pg_tmbmt_mark (this_ w2)).
Proof.
  intros Hs Hs2 Hne Hc w1 w2. subst w2 w1.
  rewrite (aset_known_state _ _ _ _ _ Hs2), (aset_known_state _ _ _ _ _ Hs).
  split.
  - rewrite <- (get_after_assign type c (this_ w) Hc) at 1. apply get_is_marked.
  - rewrite <- (get_after_assign type c (this_ w) Hc) at 1.
    rewrite <- (get_after_assign_other type2 type c2
                  (assign_slot type c (this_ w))) by congruence.
    apply get_is_marked.
Qed.

End MoreProperties.

(** * The properties at work on the small runtime *)

#[local] Existing Instance Mini.objects.
#[local] Existing Instance Mini.methods.

Lemma mini_coder_instance (key c : Mini.value) (l : list (Mini.value * Mini.value)) :
  In (key, c) l ->
  rb_obj_is_kind_of c rb_cPG_Coder = true -> coder_instance c.
Proof.
  intros _ H. split; [exact H|].
  destruct c; try discriminate H. exists name. split; reflexivity.
Defined.

Lemma mini_inv_after_assign (name : string) (v : Mini.value) :
  tmbmt_inv (this_ (Mini.after_assign name v)).
Proof.
  unfold Mini.after_assign.
  destruct (aset_cases (RO := Mini.objects) Mini.TypeMap (Mini.Str name) v Mini.fresh)
    as [[e H]|[type [_ H]]]; rewrite H; simpl.
  - apply allocate_inv.
  - apply assign_slot_inv, allocate_inv.
Defined.

(** [tm["T_STRING"] = proc { nil }], then a string is sent as the first
    parameter. *)
Lemma dispatch_resolver_nil_raises_witness :
  pg_tmbmt_typecast_query_param Mini.TypeMap (Mini.Str "abc") 0
    (Mini.after_assign "T_STRING" (Mini.Proc Mini.Nil))
  = (Raised (mk_exception rb_eTypeError
       "argument 1 has invalid type NilClass (should be nil or some kind of PG::Coder)"),
     {| this_ := this_ (Mini.after_assign "T_STRING" (Mini.Proc Mini.Nil));
        funcalls := [mk_funcall (Mini.Proc Mini.Nil) "call" [Mini.Str "abc"]] |}).
Proof.
  apply (dispatch_resolver_nil_raises (RO := Mini.objects) (RM := Mini.methods) Mini.TypeMap (Mini.Str "abc") 0
           (Mini.after_assign "T_STRING" (Mini.Proc Mini.Nil)) T_STRING).
  - reflexivity.
  - reflexivity.
  - discriminate.
  - reflexivity.
Defined.

(** [tm["T_STRING"] = proc { 42 }], then a string is sent at index 2. *)
Lemma dispatch_bad_resolver_result_witness :
  pg_tmbmt_typecast_query_param Mini.TypeMap (Mini.Str "hello") 2
    (Mini.after_assign "T_STRING" (Mini.Proc (Mini.Int 42)))
  = (Raised (mk_exception rb_eTypeError
       "argument 3 has invalid type Integer (should be nil or some kind of PG::Coder)"),
     {| this_ := this_ (Mini.after_assign "T_STRING" (Mini.Proc (Mini.Int 42)));
        funcalls := [mk_funcall (Mini.Proc (Mini.Int 42)) "call" [Mini.Str "hello"]] |}).
Proof.
  apply (dispatch_bad_resolver_result (RO := Mini.objects) (RM := Mini.methods) Mini.TypeMap (Mini.Str "hello") (Mini.Int 42) 2
           (Mini.after_assign "T_STRING" (Mini.Proc (Mini.Int 42))) T_STRING).
  - unfold INT_MAX. lia.
  - reflexivity.
  - discriminate.
  - reflexivity.
  - discriminate.
  - reflexivity.
Defined.

(** nil has the type code [T_NIL], which is not listed. *)
Lemma dispatch_unlisted_type_witness :
  pg_tmbmt_typecast_query_param Mini.TypeMap Mini.Nil 4
    (Mini.after_assign "T_STRING" (Mini.Proc (Mini.Int 42)))
  = (Normal None, Mini.after_assign "T_STRING" (Mini.Proc (Mini.Int 42))).
Proof.
  apply (dispatch_unlisted_type (RO := Mini.objects) (RM := Mini.methods) Mini.TypeMap Mini.Nil 4).
  intros type. discriminate.
Defined.



Lemma assign_then_lookup_witness :
  (exists w', pg_tmbmt_aset Mini.TypeMap (Mini.Str "T_FIXNUM") Mini.Nil Mini.fresh
              = (Normal Mini.TypeMap, w') /\
              pg_tmbmt_aref Mini.TypeMap (Mini.Str "T_FIXNUM") w'
              = (Normal Mini.Nil, w')) /\
  (exists w', pg_tmbmt_aset Mini.TypeMap (Mini.Str "T_FIXNUM")
                (Mini.Coder "PG::TextEncoder::Integer") Mini.fresh
              = (Normal Mini.TypeMap, w') /\
              pg_tmbmt_aref Mini.TypeMap (Mini.Str "T_FIXNUM") w'
              = (Normal (Mini.Coder "PG::TextEncoder::Integer"), w')).
Proof.
  destruct (assign_then_lookup (RO := Mini.objects) Mini.TypeMap (Mini.Str "T_FIXNUM") T_FIXNUM
              Mini.fresh eq_refl) as [Hnil Hcoder].
  split; [exact Hnil|].
  apply (Hcoder (Mini.Coder "PG::TextEncoder::Integer")).
  split; [reflexivity|]. exists "PG::TextEncoder::Integer". split; reflexivity.
Defined.

(** The invariant holds after [tm["T_ARRAY"] = proc { nil }] on a new
    table. *)
Lemma slot_invariant_witness :
  tmbmt_inv (this_ (Mini.after_assign "T_ARRAY" (Mini.Proc Mini.Nil))).
Proof.
  destruct (slot_invariant (RO := Mini.objects) (RM := Mini.methods) (Mini.Class "PG::TypeMapByMriType") Mini.TypeMap
              (Mini.Str "T_ARRAY") (Mini.Proc Mini.Nil) Mini.Nil Mini.Nil 0 Mini.fresh)
    as [_ [Hnew [Hkeep _]]].
  destruct (Hkeep Hnew) as [Haset _]. exact Haset.
Defined.

Lemma coders_lists_every_type_witness :
  exists h,
    pg_tmbmt_coders Mini.TypeMap
      (snd (assign_all Mini.TypeMap Mini.three_assignments Mini.fresh))
    = (Normal h, snd (assign_all Mini.TypeMap Mini.three_assignments Mini.fresh)) /\
    hash_frozen h = true /\
    map (fun e => str_bytes (fst e)) (hash_entries h)
    = map mri_type_name FOR_EACH_MRI_TYPE /\
    NoDup (map mri_type_name FOR_EACH_MRI_TYPE) /\
    forall type,
      let reported := match last_assign (mri_type_name type) Mini.three_assignments with
                      | Some c => c
                      | None => Mini.Nil
                      end in
      hash_lookup (hash_entries h) (mri_type_name type) = Some reported /\
      forall key, StringValueCStr key = Normal (mri_type_name type) ->
                  pg_tmbmt_aref Mini.TypeMap key
                    (snd (assign_all Mini.TypeMap Mini.three_assignments Mini.fresh))
                  = (Normal reported,
                     snd (assign_all Mini.TypeMap Mini.three_assignments Mini.fresh)).
Proof.
  apply (coders_lists_every_type (RO := Mini.objects) Mini.TypeMap (Mini.Class "PG::TypeMapByMriType")
           Mini.three_assignments Mini.fresh).
  - reflexivity.
  - intros key c. apply mini_coder_instance.
  - reflexivity.
Defined.

(** [tm["T_FIXNUM"] = coder], then an integer is sent. *)
Lemma dispatch_static_coder_witness :
  pg_tmbmt_typecast_query_param Mini.TypeMap (Mini.Int 7) 0
    (Mini.after_assign "T_FIXNUM" (Mini.Coder "PG::TextEncoder::Integer"))
  = (Normal (Some "PG::TextEncoder::Integer"),
     Mini.after_assign "T_FIXNUM" (Mini.Coder "PG::TextEncoder::Integer")).
Proof.
  apply (dispatch_static_coder (RO := Mini.objects) (RM := Mini.methods) Mini.TypeMap (Mini.Int 7) 0
           (Mini.after_assign "T_FIXNUM" (Mini.Coder "PG::TextEncoder::Integer"))
           T_FIXNUM).
  - apply mini_inv_after_assign.
  - reflexivity.
  - reflexivity.
Defined.

(** [tm["T_STRING"] = 5] is accepted; sending a string then fails in the
    call to [5.call]. *)
Lemma resolver_not_checked_on_assign_witness :
  exists w',
    pg_tmbmt_aset Mini.TypeMap (Mini.Str "T_STRING") (Mini.Int 5) Mini.fresh
    = (Normal Mini.TypeMap, w') /\
    pg_tmbmt_typecast_query_param Mini.TypeMap (Mini.Str "abc") 0 w'
    = (Raised (mk_exception (rb_eOther "NoMethodError")
                 "undefined method call for Integer"),
       {| this_ := this_ w';
          funcalls := funcalls w'
                      ++ [mk_funcall (Mini.Int 5) "call" [Mini.Str "abc"]] |}).
Proof.
  destruct (resolver_not_checked_on_assign (RO := Mini.objects) (RM := Mini.methods) Mini.TypeMap (Mini.Str "T_STRING")
              (Mini.Int 5) T_STRING Mini.fresh)
    as [w' [Hset [_ [_ [_ Hlater]]]]].
  - reflexivity.
  - discriminate.
  - reflexivity.
  - exists w'. split; [exact Hset|].
    apply (Hlater (Mini.Str "abc") 0); reflexivity.
Defined.

(** ** The further properties on the small runtime *)

(** The proc returns a coder and clears the slot it was found in; the
    dispatch that called it still returns that coder. *)
Lemma dispatch_resolver_returns_coder_witness :
  let w := Mini.after_assign "T_STRING"
             (Mini.Proc (Mini.Coder "PG::TextEncoder::String")) in
  pg_tmbmt_typecast_query_param (RM := Mini.clearing_methods)
    Mini.TypeMap (Mini.Str "abc") 0 w
  = (Normal (Some "PG::TextEncoder::String"),
     {| this_ := assign_slot T_STRING Mini.Nil (this_ w);
        funcalls := [mk_funcall (Mini.Proc (Mini.Coder "PG::TextEncoder::String"))
                       "call" [Mini.Str "abc"]] |}).
Proof.
  intros w.
  apply (dispatch_resolver_returns_coder (RO := Mini.objects)
           (RM := Mini.clearing_methods) Mini.TypeMap (Mini.Str "abc")
           (Mini.Coder "PG::TextEncoder::String") 0 w T_STRING).
  - reflexivity.
  - discriminate.
  - reflexivity.
  - reflexivity.
Defined.

Lemma dispatch_empty_slot_witness :
  pg_tmbmt_typecast_query_param Mini.TypeMap (Mini.Int 7) 0
    (Mini.after_assign "T_STRING" (Mini.Proc Mini.Nil))
  = (Normal None, Mini.after_assign "T_STRING" (Mini.Proc Mini.Nil)).
Proof.
  apply (dispatch_empty_slot (RO := Mini.objects) (RM := Mini.methods)
           Mini.TypeMap (Mini.Int 7) 0 _ T_FIXNUM); reflexivity.
Defined.

(** [tm["T_STRING"] = :pick]: the call goes to the type map. *)
Lemma dispatch_resolver_called_once_witness :
  let w := Mini.after_assign "T_STRING" (Mini.Sym "pick") in
  funcalls (snd (pg_tmbmt_typecast_query_param Mini.TypeMap (Mini.Str "abc") 0 w))
  = [mk_funcall Mini.TypeMap "pick" [Mini.Str "abc"]].
Proof.
  intros w.
  destruct (dispatch_resolver_called_once (RO := Mini.objects) (RM := Mini.methods)
              Mini.TypeMap (Mini.Str "abc") 0 w T_STRING)
    as [c [Hcalls [_ [Hargs [[_ [Hrecv Hmid]]|[Hnot _]]]]]].
  - reflexivity.
  - discriminate.
  - rewrite Hcalls. destruct c as [recv mid args]. cbn in Hargs, Hrecv, Hmid.
    now rewrite Hargs, Hrecv, Hmid.
  - destruct Hnot. reflexivity.
Defined.

Lemma dispatch_resolver_raise_propagates_witness :
  let w := Mini.after_assign "T_STRING" (Mini.Sym "pick") in
  pg_tmbmt_typecast_query_param Mini.TypeMap (Mini.Str "abc") 0 w
  = (Raised (mk_exception (rb_eOther "NoMethodError")
               "undefined method pick for PG::TypeMapByMriType"),
     {| this_ := this_ w;
        funcalls := [mk_funcall Mini.TypeMap "pick" [Mini.Str "abc"]] |}).
Proof.
  intros w.
  apply (dispatch_resolver_raise_propagates (RO := Mini.objects)
           (RM := Mini.methods) Mini.TypeMap (Mini.Str "abc") 0 w T_STRING).
  - reflexivity.
  - discriminate.
  - reflexivity.
Defined.

Lemma assign_resolver_then_lookup_witness :
  exists w',
    pg_tmbmt_aset Mini.TypeMap (Mini.Str "T_HASH") (Mini.Sym "pick") Mini.fresh
    = (Normal Mini.TypeMap, w') /\
    pg_tmbmt_aref Mini.TypeMap (Mini.Str "T_HASH") w' = (Normal (Mini.Sym "pick"), w').
Proof.
  apply (assign_resolver_then_lookup (RO := Mini.objects)
           Mini.TypeMap (Mini.Str "T_HASH") (Mini.Sym "pick") T_HASH Mini.fresh);
    reflexivity.
Defined.

(** The slot held a proc before the coder was assigned. *)
Lemma assign_then_dispatch_coder_witness :
  exists w' p,
    pg_tmbmt_aset Mini.TypeMap (Mini.Str "T_STRING")
      (Mini.Coder "PG::TextEncoder::String")
      (Mini.after_assign "T_STRING" (Mini.Proc Mini.Nil))
    = (Normal Mini.TypeMap, w') /\
    pg_tmbmt_typecast_query_param Mini.TypeMap (Mini.Str "abc") 0 w'
    = (Normal (Some p), w') /\
    coder_obj p = Mini.Coder "PG::TextEncoder::String".
Proof.
  apply (assign_then_dispatch_coder (RO := Mini.objects) (RM := Mini.methods)
           Mini.TypeMap (Mini.Str "T_STRING") (Mini.Coder "PG::TextEncoder::String")
           (Mini.Str "abc") 0 T_STRING).
  - reflexivity.
  - discriminate.
  - split; [reflexivity|]. exists "PG::TextEncoder::String". split; reflexivity.
  - reflexivity.
Defined.

Lemma assign_nil_then_dispatch_witness :
  exists w',
    pg_tmbmt_aset Mini.TypeMap (Mini.Str "T_STRING") Mini.Nil
      (Mini.after_assign "T_STRING" (Mini.Proc (Mini.Int 42)))
    = (Normal Mini.TypeMap, w') /\
    pg_tmbmt_typecast_query_param Mini.TypeMap (Mini.Str "abc") 0 w'
    = (Normal None, w').
Proof.
  apply (assign_nil_then_dispatch (RO := Mini.objects) (RM := Mini.methods)
           Mini.TypeMap (Mini.Str "T_STRING") (Mini.Str "abc") 0 T_STRING);
    reflexivity.
Defined.

Lemma assign_overwrites_witness :
  let twice := this_ (snd (pg_tmbmt_aset Mini.TypeMap (Mini.Str "T_FLOAT")
                             (Mini.Proc Mini.Nil)
                             (Mini.after_assign "T_FLOAT"
                                (Mini.Coder "PG::TextEncoder::Float")))) in
  let once := this_ (Mini.after_assign "T_FLOAT" (Mini.Proc Mini.Nil)) in
  Forall (fun t => coder_ (coders twice) t = coder_ (coders once) t /\
                   ask_ (coders twice) t = ask_ (coders once) t)
         FOR_EACH_MRI_TYPE.
Proof.
  intros twice once. apply Forall_forall. intros t _. revert t.
  apply (assign_overwrites (RO := Mini.objects) Mini.TypeMap (Mini.Str "T_FLOAT")
           (Mini.Coder "PG::TextEncoder::Float") (Mini.Proc Mini.Nil) T_FLOAT
           Mini.fresh).
  reflexivity.
Defined.

Lemma assign_commute_witness :
  let ab := this_ (snd (pg_tmbmt_aset Mini.TypeMap (Mini.Str "T_TRUE") (Mini.Sym "pick")
                          (Mini.after_assign "T_FLOAT"
                             (Mini.Coder "PG::TextEncoder::Float")))) in
  let ba := this_ (snd (pg_tmbmt_aset Mini.TypeMap (Mini.Str "T_FLOAT")
                          (Mini.Coder "PG::TextEncoder::Float")
                          (Mini.after_assign "T_TRUE" (Mini.Sym "pick")))) in
  Forall (fun t => coder_ (coders ab) t = coder_ (coders ba) t /\
                   ask_ (coders ab) t = ask_ (coders ba) t)
         FOR_EACH_MRI_TYPE.
Proof.
  intros ab ba. apply Forall_forall. intros t _. revert t.
  apply (assign_commute (RO := Mini.objects) Mini.TypeMap
           (Mini.Str "T_FLOAT") (Mini.Str "T_TRUE")
           (Mini.Coder "PG::TextEncoder::Float") (Mini.Sym "pick")
           T_FLOAT T_TRUE Mini.fresh).
  - reflexivity.
  - reflexivity.
  - discriminate.
Defined.

Lemma assign_other_lookup_unchanged_witness :
  let w := Mini.after_assign "T_FLOAT" (Mini.Coder "PG::TextEncoder::Float") in
  fst (pg_tmbmt_aref Mini.TypeMap (Mini.Str "T_FLOAT")
         (snd (pg_tmbmt_aset Mini.TypeMap (Mini.Str "T_TRUE") (Mini.Sym "pick") w)))
  = fst (pg_tmbmt_aref Mini.TypeMap (Mini.Str "T_FLOAT") w).
Proof.
  intros w.
  apply (assign_other_lookup_unchanged (RO := Mini.objects) Mini.TypeMap
           (Mini.Str "T_TRUE") (Mini.Str "T_FLOAT") (Mini.Sym "pick")
           T_TRUE T_FLOAT w).
  - reflexivity.
  - reflexivity.
  - discriminate.
Defined.


(** The names are compared with case. *)
Lemma assign_succeeds_iff_name_listed_witness :
  ~ (exists r w', pg_tmbmt_aset Mini.TypeMap (Mini.Str "t_fixnum") Mini.Nil Mini.fresh
                  = (Normal r, w')).
Proof.
  intros H.
  destruct (assign_succeeds_iff_name_listed (RO := Mini.objects) Mini.TypeMap
              (Mini.Str "t_fixnum") Mini.Nil "t_fixnum" Mini.fresh eq_refl)
    as [[Hset _] _].
  destruct (Hset H) as [type Ht]. destruct type; discriminate Ht.
Defined.

Lemma lookup_value_is_marked_witness :
  let w := Mini.after_assign "T_FLOAT" (Mini.Coder "PG::TextEncoder::Float") in
  exists v, pg_tmbmt_aref Mini.TypeMap (Mini.Str "T_FLOAT") w = (Normal v, w) /\
            In v (pg_tmbmt_mark (this_ w)).
Proof.
  intros w.
  apply (lookup_value_is_marked (RO := Mini.objects) Mini.TypeMap
           (Mini.Str "T_FLOAT") T_FLOAT w).
  reflexivity.
Defined.

Lemma assigned_value_is_marked_witness :
  let w1 := Mini.after_assign "T_FLOAT" (Mini.Coder "PG::TextEncoder::Float") in
  let w2 := snd (pg_tmbmt_aset Mini.TypeMap (Mini.Str "T_TRUE") (Mini.Sym "pick") w1) in
  In (Mini.Coder "PG::TextEncoder::Float") (pg_tmbmt_mark (this_ w1)) /\
  In (Mini.Coder "PG::TextEncoder::Float") (pg_tmbmt_mark (this_ w2)).
Proof.
  apply (assigned_value_is_marked (RO := Mini.objects) Mini.TypeMap
           (Mini.Str "T_FLOAT") (Mini.Str "T_TRUE")
           (Mini.Coder "PG::TextEncoder::Float") (Mini.Sym "pick")
           T_FLOAT T_TRUE Mini.fresh).
  - reflexivity.
  - reflexivity.
  - discriminate.
  - intros _. split; [reflexivity|].
    exists "PG::TextEncoder::Float". split; reflexivity.
Defined.
